(** * Shapelet basis evaluation: packed indices, the scalar Hermite evaluator
      and the vectorised model builder

    The development follows the three headers of the repository:
    - [PackedIndex] and [HermiteEvaluator] (HermiteEvaluator.h),
    - [ModelBuilder] (lsst/shapelet/ModelBuilder.h).

    [PackedIndex] is defined inline in its header and is embedded from the
    code, with C++ [int] as a 32-bit two's complement integer.  The member
    functions of [HermiteEvaluator] and [ModelBuilder] are only declared in the
    headers; their bodies are modelled from the specification and marked so. *)

From Stdlib Require Import ZArith Reals Lia.
From stdpp Require Import base list.
Local Open Scope Z_scope.

(** * C++ [int]: 32-bit two's complement arithmetic *)

(** The headers compute with [int].  The standard leaves signed overflow
    undefined; the model takes the two's complement result that the usual
    targets produce.  Every positive theorem below is stated on a range where
    no operation wraps, so it does not depend on that choice. *)
Module Int.

Definition min_signed : Z := -2147483648.
Definition max_signed : Z := 2147483647.
Definition modulus : Z := 4294967296.

Definition in_range (z : Z) : Prop := min_signed <= z <= max_signed.

(** Reduction of a mathematical integer to its 32-bit signed representative. *)
Definition wrap (z : Z) : Z := (z - min_signed) mod modulus + min_signed.

Definition add (a b : Z) : Z := wrap (a + b).
Definition sub (a b : Z) : Z := wrap (a - b).
Definition mul (a b : Z) : Z := wrap (a * b).
(** C++ integer division truncates towards zero. *)
Definition div (a b : Z) : Z := wrap (Z.quot a b).

End Int.

(** * Triangular numbers: the mathematical packed offset and packed size *)

(** [tri n] is n(n+1)/2, the number of pairs of order below [n]. *)
Definition tri (n : Z) : Z := n * (n + 1) / 2.

(** Number of pairs (x, y) with x + y <= N. *)
Definition packedSize (N : Z) : Z := (N + 1) * (N + 2) / 2.

(** * PackedIndex (HermiteEvaluator.h, lines 51-82) *)

Module PackedIndex.

(** The four private [int] members, in declaration order. *)
Record t : Set := mk { _n : Z; _i : Z; _x : Z; _y : Z }.

(** [static int const computeOffset(int order) { return order*(order+1)/2; }] *)
Definition computeOffset (order : Z) : Z :=
  Int.div (Int.mul order (Int.add order 1)) 2.

(** [static int const computeIndex(int x, int y) { return computeOffset(x+y) + x; }] *)
Definition computeIndex (x y : Z) : Z :=
  Int.add (computeOffset (Int.add x y)) x.

(** [PackedIndex & operator++()]:
    [++_i; if (--_y < 0) { _x = 0; _y = ++_n; } else { ++_x; }] *)
Definition operator_inc (p : t) : t :=
  let i' := Int.add (_i p) 1 in
  let y' := Int.sub (_y p) 1 in
  if y' <? 0 then
    let n' := Int.add (_n p) 1 in
    {| _n := n'; _i := i'; _x := 0; _y := n' |}
  else
    {| _n := _n p; _i := i'; _x := Int.add (_x p) 1; _y := y' |}.

Definition getOrder (p : t) : Z := _n p.
Definition getX (p : t) : Z := _x p.
Definition getY (p : t) : Z := _y p.
Definition getIndex (p : t) : Z := _i p.

(** [PackedIndex() : _n(0), _i(0), _x(0), _y(0) {}] *)
Definition new : t := {| _n := 0; _i := 0; _x := 0; _y := 0 |}.

(** [PackedIndex(int const x, int const y) :
       _n(x+y), _i(computeOffset(_n) + x), _x(x), _y(y) {}];
    members are initialised in declaration order, so [_n] is set before
    [_i] reads it. *)
Definition new_xy (x y : Z) : t :=
  let n := Int.add x y in
  {| _n := n; _i := Int.add (computeOffset n) x; _x := x; _y := y |}.

(** [k] successive applications of [operator++]. *)
Definition advanceBy (k : Z) (p : t) : t := Z.iter k operator_inc p.

(** The state in which [operator++] leaves an index started at the origin
    after [k] steps is the [k]-th position of the packed sequence. *)
Definition position (k : Z) : t := advanceBy k new.

(** ** The invariant behind the packed traversal *)

(** Mathematical reading of a state: non-negative coordinates, order equal to
    their sum, flat index equal to the triangular offset plus x. *)
Definition packed_inv (p : t) : Prop :=
  0 <= _x p /\ 0 <= _y p /\ _n p = _x p + _y p /\ _i p = tri (_n p) + _x p.

(** States reachable through the public interface: the two constructors
    (with non-negative [int] arguments) and [operator++]. *)
Inductive reachable : t -> Prop :=
| reach_new : reachable new
| reach_new_xy (x y : Z) :
    0 <= x <= Int.max_signed -> 0 <= y <= Int.max_signed ->
    reachable (new_xy x y)
| reach_inc (p : t) : reachable p -> reachable (operator_inc p).

(** The same, with the order kept at or below a bound [B] all along. *)
Inductive reachable_within (B : Z) : t -> Prop :=
| within_new : 0 <= B -> reachable_within B new
| within_new_xy (x y : Z) :
    0 <= x -> 0 <= y -> x + y <= B -> reachable_within B (new_xy x y)
| within_inc (p : t) :
    reachable_within B p -> getOrder (operator_inc p) <= B ->
    reachable_within B (operator_inc p).

(** Largest order whose offset computation [order*(order+1)] fits an [int]. *)
Definition max_offset_order : Z := 46340.

(** Largest order N for which the packed size (N+1)(N+2)/2 fits an [int]. *)
Definition max_packed_order : Z := 65534.

End PackedIndex.

(** * Arrays, failures and the packed loop *)

(** [Pixel] is [double] in the headers.  The model computes with exact real
    numbers: rounding is not represented. *)
Abbreviation Pixel := R.

Module Array.

(** Number of elements, as ndarray's [getSize<0>()] reports it. *)
Definition getSize {A : Type} (a : list A) : Z := Z.of_nat (length a).

(** ndarray sizes and indices are [int]. *)
Definition representable {A : Type} (a : list A) : Prop :=
  getSize a <= Int.max_signed.

(** [a[i]] read with an [int] index.  An index outside the array is
    undefined in C++; the model reads the default [d] there. *)
Definition get {A : Type} (d : A) (a : list A) (i : Z) : A :=
  if i <? 0 then d else default d (a !! Z.to_nat i).

(** [a[i] = v].  An index outside the array leaves the model array as it is. *)
Definition set {A : Type} (a : list A) (i : Z) (v : A) : list A :=
  if i <? 0 then a else <[Z.to_nat i := v]> a.

End Array.

(** Elementwise sum of vectors. *)
Definition vadd (u v : list Pixel) : list Pixel := zip_with Rplus u v.

(** Failures the specification names: a buffer whose shape does not match the
    configured order, and a configuration that makes no sense. *)
Inductive Error : Set := PreconditionViolated | InvalidConfiguration.

(** Outcome of a call on a memory of type [S]: normal return with a value and
    the final memory; a fatal failure with the memory as it was when the
    failure was raised; or a loop cut short by the model's fuel. *)
Inductive Outcome (S A : Type) : Type :=
| Done (a : A) (s : S)
| Fatal (err : Error) (s : S)
| OutOfFuel.
Arguments Done {S A} a s.
Arguments Fatal {S A} err s.
Arguments OutOfFuel {S A}.

(** The traversal loop of the header's usage note,
    [for (PackedIndex i; i.getOrder() <= order; ++i) { body }],
    started at [i] with loop state [acc]. *)
Fixpoint packedLoop {A : Type} (fuel : nat) (order : Z)
    (body : PackedIndex.t -> A -> A) (i : PackedIndex.t) (acc : A)
    {struct fuel} : option A :=
  if PackedIndex.getOrder i <=? order then
    match fuel with
    | O => None
    | S fuel' =>
        packedLoop fuel' order body (PackedIndex.operator_inc i) (body i acc)
    end
  else Some acc.

(** Iterations the loop needs for a given order: the packed size. *)
Definition packedFuel (order : Z) : nat := Z.to_nat (packedSize order).

(** * HermiteEvaluator (HermiteEvaluator.h, lines 87-165) *)

Module HermiteEvaluator.

(** The two private workspaces. *)
Record t : Type := mk { _xWorkspace : list Pixel; _yWorkspace : list Pixel }.

(** [int getOrder() const { return _xWorkspace.getSize<0>() - 1; }] *)
Definition getOrder (e : t) : Z := Int.sub (Array.getSize (_xWorkspace e)) 1.

(** Modelled from the spec: the coefficients of the one-dimensional
    recurrences, which the specification leaves open: the closed forms of h_0 and h_1, the step
    giving h_{k+1} from k, the coordinate, h_k and h_{k-1}, and the
    one-dimensional moment integral of h_k. *)
Record Hermite1d : Type := {
  h0 : R -> R;
  h1 : R -> R;
  hstep : Z -> R -> R -> R -> R;
  moment1d : Z -> Z -> R
}.

(** Modelled from the spec: the constructor body is not in the header.
    "[HermiteEvaluator(order)] allocates the axis workspaces sized order+1";
    a negative order is an invalid configuration reported at construction. *)
Definition new (order : Z) : Outcome unit t :=
  if order <? 0 then Fatal InvalidConfiguration tt
  else Done {| _xWorkspace := replicate (Z.to_nat (order + 1)) 0%R;
               _yWorkspace := replicate (Z.to_nat (order + 1)) 0%R |} tt.

(** Modelled from the spec: the three-term recurrence, "h_{k+1} from h_k and
    h_{k-1} and k"; [n] further values after h_k = [cur]. *)
Fixpoint recurrence (H : Hermite1d) (x : R) (k : Z) (prev cur : R) (n : nat)
    : list Pixel :=
  match n with
  | O => []
  | S n' =>
      let next := hstep H k x cur prev in
      next :: recurrence H x (k + 1) cur next n'
  end.

(** Modelled from the spec: the values h_0(x) .. h_{size-1}(x) that seed an
    axis workspace of the given size, "h_0 and h_1 as closed forms". *)
Definition fillHermite1d (H : Hermite1d) (size : nat) (x : R) : list Pixel :=
  match size with
  | O => []
  | S O => [h0 H x]
  | S (S n) => h0 H x :: h1 H x :: recurrence H x 1 (h0 H x) (h1 H x) n
  end.

(** Modelled from the spec: the one-dimensional moment integrals of
    h_0 .. h_{size-1} that seed an axis workspace for integration. *)
Definition fillIntegration1d (H : Hermite1d) (size : nat) (moment : Z)
    : list Pixel :=
  (fun k => moment1d H moment (Z.of_nat k)) <$> seq 0 size.

(** Modelled from the spec: [weaveFill] is declared but not defined in the
    header.  "The packed 2-D value at (x-order, y-order) is the product of the
    corresponding 1-D values", stored at the packed index. *)
Definition weaveFill (e : t) (target : list Pixel) : option (list Pixel) :=
  packedLoop (packedFuel (getOrder e)) (getOrder e)
    (fun i tgt =>
       Array.set tgt (PackedIndex.getIndex i)
         (Array.get 0%R (_xWorkspace e) (PackedIndex.getX i)
          * Array.get 0%R (_yWorkspace e) (PackedIndex.getY i))%R)
    PackedIndex.new target.

(** Modelled from the spec: the evaluator with both workspaces seeded for a
    point, "seeded once per evaluation call and cached in the per-axis
    workspace". *)
Definition seedEvaluation (H : Hermite1d) (e : t) (x y : R) : t :=
  {| _xWorkspace := fillHermite1d H (length (_xWorkspace e)) x;
     _yWorkspace := fillHermite1d H (length (_yWorkspace e)) y |}.

(** Modelled from the spec: the evaluator with both workspaces seeded for a
    pair of moments. *)
Definition seedIntegration (H : Hermite1d) (e : t) (xMoment yMoment : Z) : t :=
  {| _xWorkspace := fillIntegration1d H (length (_xWorkspace e)) xMoment;
     _yWorkspace := fillIntegration1d H (length (_yWorkspace e)) yMoment |}.

(** Modelled from the spec: the precondition "target length equals the
    packed size for the evaluator's order", whose violation is a fatal
    failure at the call. *)
Definition sizeMatches (e : t) (target : list Pixel) : bool :=
  Array.getSize target =? packedSize (getOrder e).

(** Modelled from the spec: shared shape of the two fill operations on the
    memory made of the evaluator and the caller's target: check the
    precondition, seed the workspaces, weave into the target. *)
Definition fillWith (seeded : t) (e : t) (target : list Pixel)
    : Outcome (t * list Pixel) unit :=
  if sizeMatches e target then
    match weaveFill seeded target with
    | Some target' => Done tt (seeded, target')
    | None => OutOfFuel
    end
  else Fatal PreconditionViolated (e, target).

(** Modelled from the spec: [fillEvaluation(target, x, y)] is declared in the
    header, its body is not there. *)
Definition fillEvaluation (H : Hermite1d) (e : t) (target : list Pixel)
    (x y : R) : Outcome (t * list Pixel) unit :=
  fillWith (seedEvaluation H e x y) e target.

(** Modelled from the spec: [fillIntegration(target, xMoment, yMoment)]. *)
Definition fillIntegration (H : Hermite1d) (e : t) (target : list Pixel)
    (xMoment yMoment : Z) : Outcome (t * list Pixel) unit :=
  fillWith (seedIntegration H e xMoment yMoment) e target.

End HermiteEvaluator.

(** Entry [k] of the packed table of products of the two axis workspaces:
    the x value at the x-order times the y value at the y-order of the
    [k]-th pair of the packed sequence. *)
Definition productAt (e : HermiteEvaluator.t) (k : nat) : R :=
  (Array.get 0%R (HermiteEvaluator._xWorkspace e)
     (PackedIndex.getX (PackedIndex.position (Z.of_nat k)))
   * Array.get 0%R (HermiteEvaluator._yWorkspace e)
       (PackedIndex.getY (PackedIndex.position (Z.of_nat k))))%R.

(** A concrete recurrence and evaluator of order 1, to run the model on. *)
Definition sampleHermite1d : HermiteEvaluator.Hermite1d :=
  {| HermiteEvaluator.h0 := fun _ => 1%R;
     HermiteEvaluator.h1 := fun x => x;
     HermiteEvaluator.hstep := fun _ x cur prev => (x * cur - prev)%R;
     HermiteEvaluator.moment1d := fun _ _ => 1%R |}.

Definition sampleEvaluator : HermiteEvaluator.t :=
  {| HermiteEvaluator._xWorkspace := [0%R; 0%R];
     HermiteEvaluator._yWorkspace := [0%R; 0%R] |}.

(** * ModelBuilder (lsst/shapelet/ModelBuilder.h, lines 48-96) *)

(** A matrix with pixels in rows and basis functions in columns, kept as the
    list of its columns: the builder works on whole columns. *)
Abbreviation Matrix := (list (list R)).

(** Elementwise sum of two matrices. *)
Definition matAdd (M N : Matrix) : Matrix := zip_with vadd M N.

(** Entry in row [p] and column [j] of a matrix. *)
Definition matEntry (M : Matrix) (p j : nat) : R :=
  default 0%R (default [] (M !! j) !! p).

Module ModelBuilder.

(** The private members of the class template, for element type [T] the
    exact reals. *)
Record t : Type := mk {
  _wsOrder : Z;
  _useApproximateExp : bool;
  _ellipseFactor : R;
  _x : list Pixel;
  _y : list Pixel;
  _xt : list Pixel;
  _yt : list Pixel;
  _expWorkspace : list Pixel;
  _xWorkspace : Matrix;
  _yWorkspace : Matrix
}.

(** Number of pixels: the length of the coordinate arrays. *)
Definition pixels (b : t) : nat := length (_x b).

(** Modelled from the spec: the design-matrix column of the pair (x, y) in
    the state left by the most recent [update], "the elementwise product of
    the corresponding x- and y- axis recurrence arrays (with normalization)":
    the ellipse factor and the Gaussian envelope times the two axis values. *)
Definition basisColumn (b : t) (x y : Z) : list Pixel :=
  (fun p =>
     (_ellipseFactor b * Array.get 0%R (_expWorkspace b) (Z.of_nat p)
      * Array.get 0%R (Array.get [] (_xWorkspace b) x) (Z.of_nat p)
      * Array.get 0%R (Array.get [] (_yWorkspace b) y) (Z.of_nat p))%R)
  <$> seq 0 (pixels b).

(** Modelled from the spec: column [k] of the current design matrix is the
    column of the [k]-th pair, and [designMatrix b order] is made of its first
    packedSize(order) columns; "column order matches the packed index
    sequence". *)
Definition designColumn (b : t) (k : nat) : list Pixel :=
  basisColumn b (PackedIndex.getX (PackedIndex.position (Z.of_nat k)))
                (PackedIndex.getY (PackedIndex.position (Z.of_nat k))).

Definition designMatrix (b : t) (order : Z) : Matrix :=
  designColumn b <$> seq 0 (packedFuel order).

(** Modelled from the spec: an order is within the builder's capacity when
    the workspaces hold it. *)
Definition withinCapacity (b : t) (order : Z) : bool :=
  (0 <=? order) && (order <=? _wsOrder b).

(** Modelled from the spec: the output matrix has one column per packed
    index of the order and one row per pixel. *)
Definition matrixShapeOk (b : t) (order : Z) (output : Matrix) : bool :=
  (Array.getSize output =? packedSize order)
  && forallb (fun col => Nat.eqb (length col) (pixels b)) output.

(** Modelled from the spec: [addModelMatrix(order, output)] is declared in
    the header, its body is not there.  Each column of the design matrix is
    added to the column of [output] at its packed index. *)
Definition addModelMatrix (b : t) (order : Z) (output : Matrix)
    : Outcome (t * Matrix) unit :=
  if withinCapacity b order && matrixShapeOk b order output then
    match
      packedLoop (packedFuel order) order
        (fun i out =>
           Array.set out (PackedIndex.getIndex i)
             (vadd (Array.get [] out (PackedIndex.getIndex i))
                   (basisColumn b (PackedIndex.getX i) (PackedIndex.getY i))))
        PackedIndex.new output
    with
    | Some output' => Done tt (b, output')
    | None => OutOfFuel
    end
  else Fatal PreconditionViolated (b, output).

End ModelBuilder.

(** A concrete builder over two pixels with workspaces up to order 1. *)
Definition sampleBuilder : ModelBuilder.t :=
  {| ModelBuilder._wsOrder := 1;
     ModelBuilder._useApproximateExp := false;
     ModelBuilder._ellipseFactor := 2%R;
     ModelBuilder._x := [1%R; 2%R];
     ModelBuilder._y := [3%R; 4%R];
     ModelBuilder._xt := [1%R; 2%R];
     ModelBuilder._yt := [3%R; 4%R];
     ModelBuilder._expWorkspace := [1%R; 1%R];
     ModelBuilder._xWorkspace := [[1%R; 1%R]; [1%R; 2%R]];
     ModelBuilder._yWorkspace := [[1%R; 1%R]; [3%R; 4%R]] |}.

(** ** Properties of the packed traversal, as stated for the index object *)

(** The packed sequence of a basis of order [N]: the first [packedSize N]
    positions from the origin stay within order [N]; every pair (x, y) of
    order at most [N] is one of them, and is the position after [k] advances
    for no other [k] up to [packedSize N]; and there the flat index is
    (x+y)(x+y+1)/2 + x, is [computeIndex x y], and is [k]. *)
Definition enumerates_packed (N : Z) : Prop :=
  (forall k, 0 <= k < packedSize N ->
     0 <= PackedIndex.getX (PackedIndex.position k) /\
     0 <= PackedIndex.getY (PackedIndex.position k) /\
     PackedIndex.getX (PackedIndex.position k)
       + PackedIndex.getY (PackedIndex.position k) <= N) /\
  (forall x y, 0 <= x -> 0 <= y -> x + y <= N ->
     exists k, 0 <= k < packedSize N
       /\ PackedIndex.getX (PackedIndex.position k) = x
       /\ PackedIndex.getY (PackedIndex.position k) = y
       /\ (forall k', 0 <= k' <= packedSize N ->
             PackedIndex.getX (PackedIndex.position k') = x ->
             PackedIndex.getY (PackedIndex.position k') = y -> k' = k)
       /\ PackedIndex.getIndex (PackedIndex.position k)
            = (x + y) * (x + y + 1) / 2 + x
       /\ PackedIndex.getIndex (PackedIndex.position k)
            = PackedIndex.computeIndex x y
       /\ PackedIndex.getIndex (PackedIndex.position k) = k).

(** The step from the first pair of order [n]: "at (x=0, y=n) the next step
    resets y to 0 and increments n". *)
Definition rollover_at_x0 (n : Z) : Prop :=
  forall p, PackedIndex.getX p = 0 -> PackedIndex.getY p = n ->
    PackedIndex.getOrder p = n ->
    PackedIndex.getY (PackedIndex.operator_inc p) = 0 /\
    PackedIndex.getOrder (PackedIndex.operator_inc p) = n + 1.

(** What holds of a state whose index is consistent with its pair. *)
Definition index_consistent (p : PackedIndex.t) : Prop :=
  PackedIndex.getOrder p = PackedIndex.getX p + PackedIndex.getY p /\
  PackedIndex.getIndex p
    = PackedIndex.computeIndex (PackedIndex.getX p) (PackedIndex.getY p) /\
  PackedIndex.getIndex (PackedIndex.operator_inc p) = PackedIndex.getIndex p + 1.

(** The state one step after the last pair of order 46340. *)
Definition first_of_order_46341 : PackedIndex.t :=
  PackedIndex.operator_inc (PackedIndex.new_xy 46340 0).

(** * Point and extent overloads of the fill (HermiteEvaluator.h, lines 114-124) *)

(** [geom::Point2D] and [geom::Extent2D] belong to another library; the
    header only reads their two coordinates with [getX()] and [getY()]. *)
Module Geom.

Record Point2D : Type := mkPoint2D { pointX : R; pointY : R }.
Record Extent2D : Type := mkExtent2D { extentX : R; extentY : R }.

End Geom.

(** [void fillEvaluation(target, geom::Point2D const & point) const
      { fillEvaluation(target, point.getX(), point.getY()); }] *)
Definition fillEvaluation_point (H : HermiteEvaluator.Hermite1d)
    (e : HermiteEvaluator.t) (target : list Pixel) (point : Geom.Point2D)
    : Outcome (HermiteEvaluator.t * list Pixel) unit :=
  HermiteEvaluator.fillEvaluation H e target
    (Geom.pointX point) (Geom.pointY point).

(** [void fillEvaluation(target, geom::Extent2D const & point) const
      { fillEvaluation(target, point.getX(), point.getY()); }] *)
Definition fillEvaluation_extent (H : HermiteEvaluator.Hermite1d)
    (e : HermiteEvaluator.t) (target : list Pixel) (point : Geom.Extent2D)
    : Outcome (HermiteEvaluator.t * list Pixel) unit :=
  HermiteEvaluator.fillEvaluation H e target
    (Geom.extentX point) (Geom.extentY point).

(** ** Loop bodies used to observe the packed loop *)

(** A body that records the flat index of each iteration, in order. *)
Definition recordIndex (i : PackedIndex.t) (seen : list Z) : list Z :=
  seen ++ [PackedIndex.getIndex i].


(** * Facts about 32-bit arithmetic and triangular numbers *)

(** Goals that a value lies in the [int] range, once the bounds are numbers. *)
Ltac int_range :=
  unfold Int.in_range, Int.min_signed, Int.max_signed in *; lia.

Lemma Int_wrap_in_range (z : Z) : Int.in_range (Int.wrap z).
Proof.
  unfold Int.in_range, Int.wrap, Int.min_signed, Int.max_signed, Int.modulus.
  pose proof (Z.mod_pos_bound (z - -2147483648) 4294967296 eq_refl). lia.
Qed.

Lemma Int_wrap_small (z : Z) : Int.in_range z -> Int.wrap z = z.
Proof.
  unfold Int.in_range, Int.wrap, Int.min_signed, Int.max_signed, Int.modulus. intros H.
  rewrite Z.mod_small; lia.
Qed.

Lemma Int_add_small (a b : Z) : Int.in_range (a + b) -> Int.add a b = a + b.
Proof. apply Int_wrap_small. Qed.

Lemma Int_sub_small (a b : Z) : Int.in_range (a - b) -> Int.sub a b = a - b.
Proof. apply Int_wrap_small. Qed.

Lemma Int_mul_small (a b : Z) : Int.in_range (a * b) -> Int.mul a b = a * b.
Proof. apply Int_wrap_small. Qed.

Lemma Int_div_small (a b : Z) : Int.in_range (Z.quot a b) -> Int.div a b = Z.quot a b.
Proof. apply Int_wrap_small. Qed.

Lemma tri_double (n : Z) : 2 * tri n = n * (n + 1).
Proof.
  unfold tri.
  assert (H : (n * (n + 1)) mod 2 = 0).
  { rewrite Z.mul_mod by lia.
    assert (Hn : n mod 2 = 0 \/ n mod 2 = 1)
      by (pose proof (Z.mod_pos_bound n 2 eq_refl); lia).
    destruct Hn as [Hn | Hn].
    - rewrite Hn. reflexivity.
    - replace ((n + 1) mod 2) with 0.
      + rewrite Z.mul_0_r. reflexivity.
      + rewrite Z.add_mod by lia. rewrite Hn. reflexivity. }
  pose proof (Z.div_mod (n * (n + 1)) 2 ltac:(lia)). lia.
Qed.

Lemma tri_succ (n : Z) : tri (n + 1) = tri n + n + 1.
Proof.
  pose proof (tri_double n). pose proof (tri_double (n + 1)). nia.
Qed.

Lemma tri_nonneg (n : Z) : 0 <= n -> 0 <= tri n.
Proof. intros. pose proof (tri_double n). nia. Qed.

Lemma tri_ge (n : Z) : 0 <= n -> n <= tri n.
Proof. intros. pose proof (tri_double n). nia. Qed.

Lemma tri_mono (n m : Z) : 0 <= n -> n <= m -> tri n <= tri m.
Proof. intros. pose proof (tri_double n). pose proof (tri_double m). nia. Qed.

Lemma tri_gap (n m : Z) : 0 <= n -> n < m -> tri n + n < tri m.
Proof.
  intros Hn Hlt. pose proof (tri_mono (n + 1) m ltac:(lia) ltac:(lia)).
  pose proof (tri_succ n). lia.
Qed.

Lemma packedSize_tri (N : Z) : packedSize N = tri (N + 1).
Proof.
  unfold packedSize, tri. replace (N + 1 + 1) with (N + 2) by lia. reflexivity.
Qed.

(** Two pairs with the same packed position are the same pair. *)
Lemma tri_decompose_unique (n x m z : Z) :
  0 <= x <= n -> 0 <= z <= m -> tri n + x = tri m + z -> n = m /\ x = z.
Proof.
  intros Hx Hz E.
  assert (n = m).
  { destruct (Z.lt_trichotomy n m) as [L | [L | L]]; [ | exact L | ].
    - pose proof (tri_gap n m ltac:(lia) L). lia.
    - pose proof (tri_gap m n ltac:(lia) L). lia. }
  subst. lia.
Qed.

(** * PackedIndex: the traversal invariant *)

Lemma Z_iter_succ {A : Type} (f : A -> A) (a : A) (k : Z) :
  0 <= k -> Z.iter (k + 1) f a = f (Z.iter k f a).
Proof.
  intros Hk. destruct k as [ | q | q ]; [ reflexivity | | lia ].
  change (Z.pos q + 1) with (Z.pos (q + 1)). cbn [Z.iter].
  rewrite Pos.add_1_r. apply Pos.iter_succ.
Qed.

Lemma advanceBy_succ (k : Z) (p : PackedIndex.t) :
  0 <= k ->
  PackedIndex.advanceBy (k + 1) p
    = PackedIndex.operator_inc (PackedIndex.advanceBy k p).
Proof. apply Z_iter_succ. Qed.

(** While the order's offset fits an [int], [computeOffset] is the
    triangular number. *)
Lemma computeOffset_small (n : Z) :
  0 <= n <= PackedIndex.max_offset_order -> PackedIndex.computeOffset n = tri n.
Proof.
  unfold PackedIndex.max_offset_order, PackedIndex.computeOffset. intros Hn.
  assert (R : forall z, 0 <= z <= 2147441940 -> Int.in_range z)
    by int_range.
  assert (Hp : 0 <= n * (n + 1) <= 2147441940).
  { split; [ apply Z.mul_nonneg_nonneg; lia | ].
    change 2147441940 with (46340 * 46341).
    apply Z.mul_le_mono_nonneg; lia. }
  rewrite (Int_add_small n 1) by (apply R; lia).
  rewrite (Int_mul_small n (n + 1)) by (apply R; exact Hp).
  assert (Q : Z.quot (n * (n + 1)) 2 = tri n)
    by (unfold tri; apply Z.quot_div_nonneg; lia).
  pose proof (tri_double n).
  rewrite (Int_div_small (n * (n + 1)) 2); rewrite Q;
    [ reflexivity | apply R; lia ].
Qed.

(** Adding x to the offset of a pair stays within [int]. *)
Lemma offset_plus_x_small (x y : Z) :
  0 <= x -> 0 <= y -> x + y <= PackedIndex.max_offset_order ->
  Int.add (tri (x + y)) x = tri (x + y) + x.
Proof.
  unfold PackedIndex.max_offset_order. intros Hx Hy Hn.
  pose proof (tri_mono (x + y) 46340 ltac:(lia) ltac:(lia)) as Hm.
  pose proof (tri_nonneg (x + y) ltac:(lia)).
  assert (E : tri 46340 = 1073720970) by (vm_compute; reflexivity).
  apply Int_add_small.
  int_range.
Qed.

Lemma pair_order_small (x y : Z) :
  0 <= x -> 0 <= y -> x + y <= PackedIndex.max_offset_order ->
  Int.add x y = x + y.
Proof.
  unfold PackedIndex.max_offset_order. intros Hx Hy Hn.
  apply Int_add_small.
  int_range.
Qed.

Lemma computeIndex_small (x y : Z) :
  0 <= x -> 0 <= y -> x + y <= PackedIndex.max_offset_order ->
  PackedIndex.computeIndex x y = tri (x + y) + x.
Proof.
  unfold PackedIndex.computeIndex. intros Hx Hy Hn.
  rewrite (pair_order_small x y Hx Hy Hn).
  rewrite (computeOffset_small (x + y)) by lia.
  apply offset_plus_x_small; assumption.
Qed.

(** One step of [operator++] keeps the invariant and adds one to the flat
    index, as long as the index itself can still be incremented. *)
Lemma operator_inc_inv (p : PackedIndex.t) :
  PackedIndex.packed_inv p -> PackedIndex._i p < Int.max_signed ->
  PackedIndex.packed_inv (PackedIndex.operator_inc p) /\
  PackedIndex._i (PackedIndex.operator_inc p) = PackedIndex._i p + 1.
Proof.
  destruct p as [n i x y]. unfold PackedIndex.packed_inv. cbn.
  intros (Hx & Hy & Hn & Hi) Hlt.
  pose proof (tri_ge n ltac:(lia)) as Hge.
  assert (R : forall z, 0 <= z <= Int.max_signed -> Int.in_range z)
    by int_range.
  unfold PackedIndex.operator_inc. cbn.
  rewrite (Int_add_small i 1) by (apply R; lia).
  assert (Ey : Int.sub y 1 = y - 1).
  { apply Int_sub_small. int_range. }
  rewrite Ey. destruct (Z.ltb_spec (y - 1) 0) as [Hneg | Hpos]; cbn.
  - rewrite (Int_add_small n 1) by (apply R; lia).
    assert (y = 0) by lia. subst y.
    rewrite tri_succ. repeat split; lia.
  - rewrite (Int_add_small x 1) by (apply R; lia).
    repeat split; lia.
Qed.

Lemma position_inv (k : Z) :
  0 <= k <= Int.max_signed ->
  PackedIndex.packed_inv (PackedIndex.position k) /\
  PackedIndex._i (PackedIndex.position k) = k.
Proof.
  intros [Hk Hmax]. revert Hmax. pattern k. apply natlike_ind; [ | | exact Hk ].
  - intros _. unfold PackedIndex.position, PackedIndex.packed_inv. cbn.
    repeat split; reflexivity || lia.
  - clear k Hk. intros k Hk IH Hmax.
    destruct (IH ltac:(lia)) as [Inv Ei].
    unfold PackedIndex.position in *. rewrite <- Z.add_1_r.
    rewrite advanceBy_succ by exact Hk.
    destruct (operator_inc_inv _ Inv ltac:(lia)) as [Inv' Ei'].
    split; [ exact Inv' | lia ].
Qed.

(** The position reached after tri(x+y) + x steps is the pair (x, y). *)
Lemma position_of_pair (x y : Z) :
  0 <= x -> 0 <= y -> tri (x + y) + x <= Int.max_signed ->
  PackedIndex.position (tri (x + y) + x)
    = PackedIndex.mk (x + y) (tri (x + y) + x) x y.
Proof.
  intros Hx Hy Hmax.
  pose proof (tri_nonneg (x + y) ltac:(lia)) as Ht.
  destruct (position_inv (tri (x + y) + x) ltac:(lia)) as [Inv Ei].
  destruct (PackedIndex.position (tri (x + y) + x)) as [n i x' y'].
  unfold PackedIndex.packed_inv in Inv.
  cbn [PackedIndex._n PackedIndex._i PackedIndex._x PackedIndex._y] in *.
  destruct Inv as (Hx' & Hy' & Hn & Hi).
  destruct (tri_decompose_unique n x' (x + y) x) as [En Ex]; [ lia | lia | lia | ].
  f_equal; lia.
Qed.

Lemma packedSize_small (N : Z) :
  0 <= N <= PackedIndex.max_packed_order -> packedSize N <= Int.max_signed.
Proof.
  unfold PackedIndex.max_packed_order. intros HN. rewrite packedSize_tri.
  pose proof (tri_mono (N + 1) 65535 ltac:(lia) ltac:(lia)) as H.
  assert (E : tri 65535 = 2147450880) by (vm_compute; reflexivity).
  unfold Int.max_signed. lia.
Qed.

(** Every position below the packed size of order [N] is a pair of order at
    most [N]. *)
Lemma position_order_bound (N k : Z) :
  0 <= N <= PackedIndex.max_packed_order -> 0 <= k < packedSize N ->
  0 <= PackedIndex.getX (PackedIndex.position k) /\
  0 <= PackedIndex.getY (PackedIndex.position k) /\
  PackedIndex.getX (PackedIndex.position k)
    + PackedIndex.getY (PackedIndex.position k) <= N.
Proof.
  intros HN Hk. pose proof (packedSize_small N HN) as Hs.
  destruct (position_inv k ltac:(lia)) as [Inv Ei].
  destruct (PackedIndex.position k) as [n i x y].
  unfold PackedIndex.packed_inv, PackedIndex.getX, PackedIndex.getY in *.
  cbn [PackedIndex._n PackedIndex._i PackedIndex._x PackedIndex._y] in *.
  destruct Inv as (Hx & Hy & Hn & Hi). repeat split; try lia.
  destruct (Z.le_gt_cases (x + y) N) as [L | G]; [ exact L | exfalso ].
  rewrite packedSize_tri in Hk.
  pose proof (tri_mono (N + 1) n ltac:(lia) ltac:(lia)). lia.
Qed.

(** A position is determined by its pair. *)
Lemma position_pair_unique (k x y : Z) :
  0 <= k <= Int.max_signed ->
  PackedIndex.getX (PackedIndex.position k) = x ->
  PackedIndex.getY (PackedIndex.position k) = y ->
  k = tri (x + y) + x.
Proof.
  intros Hk Ex Ey. destruct (position_inv k Hk) as [Inv Ei].
  destruct (PackedIndex.position k) as [n i x' y'].
  unfold PackedIndex.packed_inv, PackedIndex.getX, PackedIndex.getY in *.
  cbn [PackedIndex._n PackedIndex._i PackedIndex._x PackedIndex._y] in *.
  destruct Inv as (Hx & Hy & Hn & Hi). subst. reflexivity.
Qed.

(** The enumeration itself is sound up to the largest order whose packed
    size fits an [int]: each pair of order at most [N] is visited at step
    tri(x+y) + x and at no other step, and the flat index is the step. *)
Lemma enumeration_up_to_packed_order (N x y : Z) :
  0 <= N <= PackedIndex.max_packed_order ->
  0 <= x -> 0 <= y -> x + y <= N ->
  0 <= tri (x + y) + x < packedSize N /\
  PackedIndex.position (tri (x + y) + x)
    = PackedIndex.mk (x + y) (tri (x + y) + x) x y /\
  (forall k', 0 <= k' <= packedSize N ->
     PackedIndex.getX (PackedIndex.position k') = x ->
     PackedIndex.getY (PackedIndex.position k') = y -> k' = tri (x + y) + x).
Proof.
  intros HN Hx Hy Hxy. pose proof (packedSize_small N HN) as Hs.
  pose proof (tri_nonneg (x + y) ltac:(lia)) as Ht.
  assert (Hlt : tri (x + y) + x < packedSize N).
  { rewrite packedSize_tri.
    pose proof (tri_gap (x + y) (N + 1) ltac:(lia) ltac:(lia)). lia. }
  split; [ lia | split ].
  - apply position_of_pair; lia.
  - intros k' Hk' Ex Ey. apply position_pair_unique; [ lia | exact Ex | exact Ey ].
Qed.

(** * Claims about PackedIndex *)

(** C1 (as amended).  For every order N with 0 <= N <= 46340, starting at the
    origin and applying [operator++] repeatedly, the first (N+1)(N+2)/2
    positions are exactly the pairs (x, y) of non-negative integers with
    x + y <= N, each visited at exactly one step, and at the step visiting
    (x, y) the flat index [getIndex()] equals (x+y)(x+y+1)/2 + x, equals
    [computeIndex(x, y)], and equals the number of advances taken. *)
Theorem packed_enumeration (N : Z) :
  0 <= N <= PackedIndex.max_offset_order -> enumerates_packed N.
Proof.
  unfold PackedIndex.max_offset_order. intros HN.
  assert (HN' : 0 <= N <= PackedIndex.max_packed_order)
    by (unfold PackedIndex.max_packed_order; lia).
  split.
  - intros k Hk. apply position_order_bound; assumption.
  - intros x y Hx Hy Hxy.
    destruct (enumeration_up_to_packed_order N x y HN' Hx Hy Hxy)
      as (Hk & Epos & Huniq).
    exists (tri (x + y) + x). rewrite Epos.
    unfold PackedIndex.getX, PackedIndex.getY, PackedIndex.getIndex.
    cbn [PackedIndex._i PackedIndex._x PackedIndex._y].
    repeat split; try reflexivity; try lia.
    + exact Huniq.
    + symmetry. apply computeIndex_small;
        unfold PackedIndex.max_offset_order; lia.
Qed.

Lemma packed_enumeration_witness :
  0 <= 3 <= PackedIndex.max_offset_order /\ enumerates_packed 3.
Proof.
  assert (H : 0 <= 3 <= PackedIndex.max_offset_order)
    by (unfold PackedIndex.max_offset_order; lia).
  split; [ exact H | exact (packed_enumeration 3 H) ].
Defined.

(** C1 fails as stated: at N = 46341 the pair (0, 46341) is
    visited at step 1073767311, while [computeIndex(0, 46341)] overflows the
    [int] product 46341 * 46342 and is negative. *)
Lemma packed_enumeration_fails_at_46341 : ~ enumerates_packed 46341.
Proof.
  intros [_ H].
  destruct (H 0 46341 ltac:(lia) ltac:(lia) ltac:(lia))
    as (k & [Hk _] & _ & _ & _ & _ & Hc & Hi).
  rewrite Hi in Hc.
  assert (E : PackedIndex.computeIndex 0 46341 = -1073716337)
    by (vm_compute; reflexivity).
  rewrite E in Hc. lia.
Qed.

(** Inside an order the step moves one unit from y to x and keeps the
    order: in particular from (0, n) with n >= 1 the next pair is (1, n-1). *)
Lemma operator_inc_within_order (p : PackedIndex.t) :
  0 < PackedIndex.getY p <= Int.max_signed ->
  0 <= PackedIndex.getX p < Int.max_signed ->
  PackedIndex.getX (PackedIndex.operator_inc p) = PackedIndex.getX p + 1 /\
  PackedIndex.getY (PackedIndex.operator_inc p) = PackedIndex.getY p - 1 /\
  PackedIndex.getOrder (PackedIndex.operator_inc p) = PackedIndex.getOrder p.
Proof.
  destruct p as [n i x y].
  unfold PackedIndex.getX, PackedIndex.getY, PackedIndex.getOrder.
  cbn [PackedIndex._n PackedIndex._x PackedIndex._y]. intros Hy Hx.
  assert (R : forall z, 0 <= z <= Int.max_signed -> Int.in_range z)
    by int_range.
  unfold PackedIndex.operator_inc.
  cbn [PackedIndex._n PackedIndex._i PackedIndex._x PackedIndex._y].
  rewrite (Int_sub_small y 1) by (apply R; lia).
  destruct (Z.ltb_spec (y - 1) 0) as [Hneg | Hpos]; [ lia | ].
  cbn [PackedIndex._n PackedIndex._x PackedIndex._y].
  rewrite (Int_add_small x 1) by (apply R; lia).
  repeat split; reflexivity.
Qed.

(** The product inside [computeOffset(46341)] is not an [int], whatever the
    target does on overflow. *)
Lemma offset_product_overflows_at_46341 : ~ Int.in_range (46341 * (46341 + 1)).
Proof.
  int_range.
Qed.

(** C7 (as amended).  For every n with 0 <= n < 2^31 - 1, applying
    [operator++] to a PackedIndex positioned at the last pair of order n,
    (x = n, y = 0), resets x to 0, sets y to n + 1 and increments the order
    by one. *)
Theorem operator_inc_rollover (n : Z) (p : PackedIndex.t) :
  0 <= n < Int.max_signed ->
  PackedIndex.getX p = n -> PackedIndex.getY p = 0 ->
  PackedIndex.getOrder p = n ->
  PackedIndex.getX (PackedIndex.operator_inc p) = 0 /\
  PackedIndex.getY (PackedIndex.operator_inc p) = n + 1 /\
  PackedIndex.getOrder (PackedIndex.operator_inc p) = n + 1.
Proof.
  destruct p as [n' i x y].
  unfold PackedIndex.getX, PackedIndex.getY, PackedIndex.getOrder.
  cbn [PackedIndex._n PackedIndex._x PackedIndex._y].
  intros Hn -> -> ->. unfold PackedIndex.operator_inc.
  cbn [PackedIndex._n PackedIndex._i PackedIndex._x PackedIndex._y].
  change (Int.sub 0 1 <? 0) with true. cbv iota.
  cbn [PackedIndex._n PackedIndex._x PackedIndex._y].
  rewrite (Int_add_small n 1); [ repeat split; reflexivity | ].
  int_range.
Qed.

Lemma operator_inc_rollover_witness :
  PackedIndex.getX (PackedIndex.operator_inc (PackedIndex.new_xy 2 0)) = 0 /\
  PackedIndex.getY (PackedIndex.operator_inc (PackedIndex.new_xy 2 0)) = 2 + 1 /\
  PackedIndex.getOrder (PackedIndex.operator_inc (PackedIndex.new_xy 2 0)) = 2 + 1.
Proof.
  apply (operator_inc_rollover 2 (PackedIndex.new_xy 2 0)).
  - unfold Int.max_signed. lia.
  - reflexivity.
  - reflexivity.
  - reflexivity.
Defined.

(** C7 fails as stated: from (x = 0, y = 2) the next step is (x = 1, y = 1),
    still of order 2. *)
Lemma rollover_at_x0_fails_at_2 : ~ rollover_at_x0 2.
Proof.
  intros H.
  destruct (H (PackedIndex.new_xy 0 2) eq_refl eq_refl eq_refl) as [Hy _].
  vm_compute in Hy. discriminate Hy.
Qed.

(** States reached without leaving orders 0..B, for a bound [B] whose offset
    fits an [int], satisfy the mathematical invariant. *)
Lemma reachable_within_inv (B : Z) (p : PackedIndex.t) :
  B <= PackedIndex.max_offset_order ->
  PackedIndex.reachable_within B p ->
  PackedIndex.packed_inv p /\ PackedIndex._n p <= B.
Proof.
  unfold PackedIndex.max_offset_order. intros HB Hp.
  induction Hp as [ H0 | x y Hx Hy Hxy | p Hp [Inv Hn] Hle ].
  - unfold PackedIndex.packed_inv. cbn. repeat split; reflexivity || lia.
  - unfold PackedIndex.packed_inv, PackedIndex.new_xy.
    cbn [PackedIndex._n PackedIndex._i PackedIndex._x PackedIndex._y].
    assert (Hle : x + y <= PackedIndex.max_offset_order)
      by (unfold PackedIndex.max_offset_order; lia).
    rewrite (pair_order_small x y Hx Hy Hle).
    rewrite (computeOffset_small (x + y)) by lia.
    rewrite (offset_plus_x_small x y Hx Hy Hle).
    repeat split; reflexivity || lia.
  - assert (Hi : PackedIndex._i p < Int.max_signed).
    { destruct Inv as (Hx & Hy & En & Ei).
      pose proof (tri_mono (PackedIndex._n p) 46340 ltac:(lia) ltac:(lia)).
      assert (E : tri 46340 = 1073720970) by (vm_compute; reflexivity).
      unfold Int.max_signed. lia. }
    destruct (operator_inc_inv p Inv Hi) as [Inv' _].
    split; [ exact Inv' | exact Hle ].
Qed.

(** C10 (as amended).  Every PackedIndex state obtained from the default
    constructor, from the (x, y) constructor with non-negative x and y and
    x + y <= 46340, or from such a state by advance operations that keep the
    order at or below 46340, satisfies getOrder() == getX() + getY() and
    getIndex() == computeIndex(getX(), getY()); and a single advance from it
    increases getIndex() by exactly one. *)
Theorem reachable_index_consistent (p : PackedIndex.t) :
  PackedIndex.reachable_within PackedIndex.max_offset_order p ->
  index_consistent p.
Proof.
  intros Hp.
  destruct (reachable_within_inv _ p (Z.le_refl _) Hp) as [Inv Hn].
  assert (Hi : PackedIndex._i p < Int.max_signed).
  { destruct Inv as (Hx & Hy & En & Ei).
    unfold PackedIndex.max_offset_order in Hn.
    pose proof (tri_mono (PackedIndex._n p) 46340 ltac:(lia) ltac:(lia)).
    assert (E : tri 46340 = 1073720970) by (vm_compute; reflexivity).
    unfold Int.max_signed. lia. }
  destruct (operator_inc_inv p Inv Hi) as [_ Ei'].
  destruct Inv as (Hx & Hy & En & Ei).
  unfold index_consistent, PackedIndex.getOrder, PackedIndex.getX,
    PackedIndex.getY, PackedIndex.getIndex.
  split; [ exact En | split; [ | exact Ei' ] ].
  rewrite computeIndex_small by lia. rewrite Ei, En. reflexivity.
Qed.

Lemma reachable_index_consistent_witness :
  index_consistent (PackedIndex.operator_inc (PackedIndex.new_xy 1 0)).
Proof.
  apply reachable_index_consistent. apply PackedIndex.within_inc.
  - apply PackedIndex.within_new_xy;
      unfold PackedIndex.max_offset_order; lia.
  - vm_compute. discriminate.
Defined.

(** C10 fails as stated: the state one advance after PackedIndex(46340, 0)
    is reachable, has index 1073767311, and [computeIndex] of its pair
    (0, 46341) overflows to a negative value. *)
Lemma reachable_index_inconsistent :
  PackedIndex.reachable first_of_order_46341 /\
  ~ index_consistent first_of_order_46341.
Proof.
  split.
  - apply PackedIndex.reach_inc, PackedIndex.reach_new_xy;
      unfold Int.max_signed; lia.
  - intros (_ & H & _). vm_compute in H. discriminate H.
Qed.

(** * The packed loop *)

Lemma packedSize_nonneg (order : Z) : -1 <= order -> 0 <= packedSize order.
Proof.
  intros H. rewrite packedSize_tri. apply tri_nonneg. lia.
Qed.

(** Within the packed size of [order] the traversal is still inside the
    order; at the packed size it has just left it. *)
Lemma position_in_order (order k : Z) :
  -1 <= order <= PackedIndex.max_packed_order ->
  0 <= k <= packedSize order ->
  PackedIndex.getOrder (PackedIndex.position k) <= order <-> k < packedSize order.
Proof.
  intros Ho Hk.
  assert (Hs : packedSize order <= Int.max_signed).
  { destruct (Z.eq_dec order (-1)) as [-> | Hne].
    - unfold Int.max_signed. change (packedSize (-1)) with 0. lia.
    - apply packedSize_small. lia. }
  destruct (position_inv k ltac:(lia)) as [Inv Ei].
  destruct (PackedIndex.position k) as [n i x y].
  unfold PackedIndex.packed_inv, PackedIndex.getOrder in *.
  cbn [PackedIndex._n PackedIndex._i PackedIndex._x PackedIndex._y] in *.
  destruct Inv as (Hx & Hy & Hn & Hi). rewrite packedSize_tri in *.
  split.
  - intros Hle.
    pose proof (tri_gap n (order + 1) ltac:(lia) ltac:(lia)). lia.
  - intros Hlt. destruct (Z.le_gt_cases n order) as [L | G]; [ exact L | ].
    pose proof (tri_mono (order + 1) n ltac:(lia) ltac:(lia)).
    pose proof (tri_nonneg n ltac:(lia)). lia.
Qed.

Lemma position_succ (k : Z) :
  0 <= k ->
  PackedIndex.position (k + 1) = PackedIndex.operator_inc (PackedIndex.position k).
Proof. apply advanceBy_succ. Qed.

(** The loop started at position [k], with as much fuel as positions are
    left, runs its body on each remaining position in turn and stops. *)
Lemma packedLoop_from {A : Type} (order : Z) (body : PackedIndex.t -> A -> A)
    (m : nat) (k : nat) (acc : A) :
  -1 <= order <= PackedIndex.max_packed_order ->
  Z.of_nat k + Z.of_nat m = packedSize order ->
  packedLoop m order body (PackedIndex.position (Z.of_nat k)) acc
  = Some (fold_left (fun a j => body (PackedIndex.position (Z.of_nat j)) a)
            (seq k m) acc).
Proof.
  intros Ho. revert k acc. induction m as [ | m IH ]; intros k acc Hkm.
  - cbn [packedLoop seq fold_left].
    destruct (Z.leb_spec (PackedIndex.getOrder (PackedIndex.position (Z.of_nat k)))
                order) as [Hle | Hgt]; [ | reflexivity ].
    apply (position_in_order order (Z.of_nat k) Ho) in Hle; lia.
  - cbn [packedLoop seq fold_left].
    destruct (Z.leb_spec (PackedIndex.getOrder (PackedIndex.position (Z.of_nat k)))
                order) as [Hle | Hgt].
    + rewrite <- position_succ by lia.
      replace (Z.of_nat k + 1) with (Z.of_nat (S k)) by lia.
      apply IH. lia.
    + exfalso.
      assert (Hlt : Z.of_nat k < packedSize order) by lia.
      apply (position_in_order order (Z.of_nat k) Ho) in Hlt; lia.
Qed.

(** With the fuel of the packed size, the loop from the origin terminates,
    having run its body once on each position of the order, in sequence. *)
Lemma packedLoop_run {A : Type} (order : Z) (body : PackedIndex.t -> A -> A)
    (acc : A) :
  -1 <= order <= PackedIndex.max_packed_order ->
  packedLoop (packedFuel order) order body PackedIndex.new acc
  = Some (fold_left (fun a j => body (PackedIndex.position (Z.of_nat j)) a)
            (seq 0 (packedFuel order)) acc).
Proof.
  intros Ho.
  change PackedIndex.new with (PackedIndex.position (Z.of_nat 0)).
  apply packedLoop_from; [ exact Ho | ].
  unfold packedFuel. pose proof (packedSize_nonneg order ltac:(lia)). lia.
Qed.

(** Index and pair of a position inside the order. *)
Lemma position_index (k : nat) :
  Z.of_nat k <= Int.max_signed ->
  PackedIndex.getIndex (PackedIndex.position (Z.of_nat k)) = Z.of_nat k.
Proof.
  intros Hk. destruct (position_inv (Z.of_nat k) ltac:(lia)) as [_ Ei]. exact Ei.
Qed.

Lemma fold_left_ext_in {A B : Type} (f g : A -> B -> A) (l : list B) (a : A) :
  (forall x b, In b l -> f x b = g x b) -> fold_left f l a = fold_left g l a.
Proof.
  revert a. induction l as [ | b l IH ]; intros a Hfg; [ reflexivity | ].
  cbn [fold_left]. rewrite (Hfg a b) by (left; reflexivity).
  apply IH. intros x b' Hin. apply Hfg. right. exact Hin.
Qed.

(** An order whose packed size is an [int] is at most 65534. *)
Lemma order_of_representable_size (order : Z) :
  -1 <= order -> packedSize order <= Int.max_signed ->
  order <= PackedIndex.max_packed_order.
Proof.
  unfold PackedIndex.max_packed_order, Int.max_signed. intros Ho Hs.
  destruct (Z.le_gt_cases order 65534) as [L | G]; [ exact L | exfalso ].
  rewrite packedSize_tri in Hs.
  pose proof (tri_mono 65536 (order + 1) ltac:(lia) ltac:(lia)) as Hm.
  assert (E : tri 65536 = 2147516416) by (vm_compute; reflexivity).
  lia.
Qed.

(** * Arrays: reads, writes and folds of writes *)

Lemma Array_get_nat {A : Type} (d : A) (a : list A) (k : nat) :
  Array.get d a (Z.of_nat k) = default d (a !! k).
Proof.
  unfold Array.get. destruct (Z.ltb_spec (Z.of_nat k) 0) as [H | H]; [ lia | ].
  rewrite Nat2Z.id. reflexivity.
Qed.

Lemma Array_set_nat {A : Type} (a : list A) (k : nat) (v : A) :
  Array.set a (Z.of_nat k) v = <[k := v]> a.
Proof.
  unfold Array.set. destruct (Z.ltb_spec (Z.of_nat k) 0) as [H | H]; [ lia | ].
  rewrite Nat2Z.id. reflexivity.
Qed.

(** A sweep that rewrites the entries k0 .. k0+m-1 of an array in turn, each
    from its old value: entry [j] of the result. *)
Lemma sweep_lookup {A : Type} (h : A -> nat -> A) (d : A) (m k0 : nat)
    (l : list A) (j : nat) :
  fold_left (fun a k => <[k := h (default d (a !! k)) k]> a) (seq k0 m) l !! j
  = if decide (k0 <= j < k0 + m)%nat then (fun v => h v j) <$> (l !! j)
    else l !! j.
Proof.
  revert k0 l. induction m as [ | m IH ]; intros k0 l.
  - cbn [seq fold_left]. destruct (decide _) as [Hin | Hout]; [ lia | reflexivity ].
  - cbn [seq fold_left]. rewrite IH.
    destruct (decide (S k0 <= j < S k0 + m)%nat) as [Hin | Hout].
    + rewrite list_lookup_insert_ne by lia.
      destruct (decide _) as [Hin' | Hout']; [ reflexivity | lia ].
    + destruct (decide (k0 = j)) as [<- | Hne].
      * destruct (decide _) as [Hin' | Hout']; [ | lia ].
        destruct (l !! k0) as [v | ] eqn:E.
        -- rewrite list_lookup_insert_eq by (eapply lookup_lt_Some; exact E).
           reflexivity.
        -- rewrite list_insert_ge by (apply lookup_ge_None; exact E).
           rewrite E. reflexivity.
      * rewrite list_lookup_insert_ne by exact Hne.
        destruct (decide _) as [Hin' | Hout']; [ lia | reflexivity ].
Qed.

(** Sweeping a whole array gives the array of the rewritten entries. *)
Lemma sweep_all {A : Type} (h : A -> nat -> A) (d : A) (l : list A) :
  fold_left (fun a k => <[k := h (default d (a !! k)) k]> a)
    (seq 0 (length l)) l
  = (fun k => h (default d (l !! k)) k) <$> seq 0 (length l).
Proof.
  apply list_eq. intros j. rewrite sweep_lookup, list_lookup_fmap.
  destruct (decide (j < length l)%nat) as [Hlt | Hge].
  - destruct (decide _) as [Hin | Hout]; [ | lia ].
    rewrite lookup_seq_lt by exact Hlt.
    destruct (lookup_lt_is_Some_2 l j Hlt) as [v E]. cbn. rewrite E. reflexivity.
  - destruct (decide _) as [Hin | Hout]; [ lia | ].
    rewrite lookup_seq_ge by lia.
    apply lookup_ge_None. lia.
Qed.

(** * Arrays paired with tables *)

(** Pairing an array with a table of as many values. *)
Lemma zip_with_table {A B C : Type} (f : A -> B -> C) (d : A) (c : list A)
    (g : nat -> B) :
  zip_with f c (g <$> seq 0 (length c))
  = (fun k => f (default d (c !! k)) (g k)) <$> seq 0 (length c).
Proof.
  apply list_eq. intros j. rewrite lookup_zip_with, !list_lookup_fmap.
  destruct (decide (j < length c)%nat) as [Hlt | Hge].
  - rewrite lookup_seq_lt by exact Hlt.
    destruct (lookup_lt_is_Some_2 c j Hlt) as [v E]. rewrite E. cbn.
    rewrite E. reflexivity.
  - rewrite lookup_seq_ge by lia.
    replace (c !! j) with (@None A) by (symmetry; apply lookup_ge_None; lia).
    reflexivity.
Qed.

(** * HermiteEvaluator: construction and fill *)

Lemma packedFuel_size (order : Z) :
  -1 <= order -> Z.of_nat (packedFuel order) = packedSize order.
Proof.
  intros Ho. unfold packedFuel. pose proof (packedSize_nonneg order Ho). lia.
Qed.

Lemma packedFuel_representable (order : Z) :
  -1 <= order <= PackedIndex.max_packed_order ->
  Z.of_nat (packedFuel order) <= Int.max_signed.
Proof.
  intros Ho. rewrite packedFuel_size by lia.
  destruct (Z.eq_dec order (-1)) as [-> | Hne].
  - unfold Int.max_signed. change (packedSize (-1)) with 0. lia.
  - apply packedSize_small. lia.
Qed.


Lemma recurrence_length (H : HermiteEvaluator.Hermite1d) (x : R) (n : nat) :
  forall k prev cur,
    length (HermiteEvaluator.recurrence H x k prev cur n) = n.
Proof.
  induction n as [ | n IH ]; intros k prev cur; cbn; [ reflexivity | ].
  rewrite IH. reflexivity.
Qed.

Lemma fillHermite1d_length (H : HermiteEvaluator.Hermite1d) (size : nat) (x : R) :
  length (HermiteEvaluator.fillHermite1d H size x) = size.
Proof.
  destruct size as [ | [ | n ] ]; cbn; try reflexivity.
  rewrite recurrence_length. reflexivity.
Qed.

Lemma fillIntegration1d_length (H : HermiteEvaluator.Hermite1d) (size : nat)
    (moment : Z) :
  length (HermiteEvaluator.fillIntegration1d H size moment) = size.
Proof.
  unfold HermiteEvaluator.fillIntegration1d.
  rewrite length_fmap, length_seq. reflexivity.
Qed.

(** The weave of a fill writes the packed table of products. *)
Lemma weaveFill_table (e : HermiteEvaluator.t) (target : list Pixel) :
  -1 <= HermiteEvaluator.getOrder e <= PackedIndex.max_packed_order ->
  length target = packedFuel (HermiteEvaluator.getOrder e) ->
  HermiteEvaluator.weaveFill e target
  = Some (productAt e <$> seq 0 (length target)).
Proof.
  intros Ho Hlen. unfold HermiteEvaluator.weaveFill.
  rewrite packedLoop_run by exact Ho. f_equal.
  pose proof (packedFuel_representable _ Ho) as Hrep.
  rewrite <- Hlen in *.
  etransitivity;
    [ | exact (sweep_all (fun _ k => productAt e k) 0%R target) ].
  apply fold_left_ext_in. intros a k Hin. apply in_seq in Hin.
  rewrite position_index by lia. rewrite Array_set_nat. reflexivity.
Qed.

(** * Claims about HermiteEvaluator *)

(** C8.  For every order n >= 0 (an [int]), the evaluator constructed as
    [HermiteEvaluator(n)] has both axis workspaces of size n + 1, and
    [getOrder()], computed as the x workspace size minus one, returns n. *)
Theorem constructed_order (n : Z) :
  0 <= n <= Int.max_signed ->
  exists e,
    HermiteEvaluator.new n = Done e tt /\
    Array.getSize (HermiteEvaluator._xWorkspace e) = n + 1 /\
    Array.getSize (HermiteEvaluator._yWorkspace e) = n + 1 /\
    HermiteEvaluator.getOrder e = n.
Proof.
  intros Hn. unfold HermiteEvaluator.new.
  destruct (Z.ltb_spec n 0) as [Hneg | _]; [ lia | ].
  eexists. split; [ reflexivity | ].
  unfold HermiteEvaluator.getOrder, Array.getSize.
  cbn [HermiteEvaluator._xWorkspace HermiteEvaluator._yWorkspace].
  rewrite length_replicate, Z2Nat.id by lia.
  repeat split. rewrite Int_sub_small; [ lia | ].
  int_range.
Qed.

Lemma constructed_order_witness :
  exists e,
    HermiteEvaluator.new 2 = Done e tt /\
    Array.getSize (HermiteEvaluator._xWorkspace e) = 2 + 1 /\
    Array.getSize (HermiteEvaluator._yWorkspace e) = 2 + 1 /\
    HermiteEvaluator.getOrder e = 2.
Proof.
  apply (constructed_order 2). unfold Int.max_signed. lia.
Defined.

(** C9.  A call to [fillEvaluation] with a target whose length differs from
    the packed size (order+1)(order+2)/2 of the evaluator's order fails at
    that call with the fatal precondition failure, and memory is as it was
    on entry: nothing has been written to the target. *)
Theorem fillEvaluation_rejects_wrong_size (H : HermiteEvaluator.Hermite1d)
    (e : HermiteEvaluator.t) (target : list Pixel) (x y : R) :
  Array.getSize target <> packedSize (HermiteEvaluator.getOrder e) ->
  HermiteEvaluator.fillEvaluation H e target x y
  = Fatal PreconditionViolated (e, target).
Proof.
  intros Hne.
  unfold HermiteEvaluator.fillEvaluation, HermiteEvaluator.fillWith,
    HermiteEvaluator.sizeMatches.
  destruct (Z.eqb_spec (Array.getSize target)
              (packedSize (HermiteEvaluator.getOrder e))) as [E | _].
  - contradiction.
  - reflexivity.
Qed.

Lemma fillEvaluation_rejects_wrong_size_witness :
  HermiteEvaluator.fillEvaluation sampleHermite1d sampleEvaluator
    [0%R; 0%R] 2%R 3%R
  = Fatal PreconditionViolated (sampleEvaluator, [0%R; 0%R]).
Proof.
  apply (fillEvaluation_rejects_wrong_size sampleHermite1d sampleEvaluator
           [0%R; 0%R] 2%R 3%R).
  unfold Array.getSize. simpl. discriminate.
Defined.

(** * ModelBuilder: matrix accumulation *)

Lemma basisColumn_length (b : ModelBuilder.t) (x y : Z) :
  length (ModelBuilder.basisColumn b x y) = ModelBuilder.pixels b.
Proof.
  unfold ModelBuilder.basisColumn. rewrite length_fmap, length_seq. reflexivity.
Qed.

Lemma designColumn_length (b : ModelBuilder.t) (k : nat) :
  length (ModelBuilder.designColumn b k) = ModelBuilder.pixels b.
Proof. apply basisColumn_length. Qed.

Lemma forallb_of_Forall {A : Type} (f : A -> bool) (P : A -> Prop) (l : list A) :
  (forall a, P a -> f a = true) -> Forall P l -> forallb f l = true.
Proof.
  intros Hf HP. induction HP as [ | a l Ha _ IH ]; cbn; [ reflexivity | ].
  rewrite (Hf a Ha), IH. reflexivity.
Qed.

Lemma withinCapacity_true (b : ModelBuilder.t) (order : Z) :
  0 <= order <= ModelBuilder._wsOrder b ->
  ModelBuilder.withinCapacity b order = true.
Proof.
  intros [H0 H1]. unfold ModelBuilder.withinCapacity.
  rewrite (proj2 (Z.leb_le _ _) H0), (proj2 (Z.leb_le _ _) H1). reflexivity.
Qed.

Lemma order_bounds_of_size {A : Type} (order : Z) (a : list A) :
  0 <= order -> Array.representable a -> Array.getSize a = packedSize order ->
  -1 <= order <= PackedIndex.max_packed_order /\ length a = packedFuel order.
Proof.
  unfold Array.representable, Array.getSize, packedFuel. intros Ho Hr Hs.
  repeat split; [ lia | | lia ].
  apply order_of_representable_size; lia.
Qed.

(** The matrix loop adds the design matrix to the output, column by column. *)
Lemma addModelMatrix_run (b : ModelBuilder.t) (order : Z) (output : Matrix) :
  0 <= order <= ModelBuilder._wsOrder b ->
  Array.representable output ->
  Array.getSize output = packedSize order ->
  Forall (fun col => length col = ModelBuilder.pixels b) output ->
  ModelBuilder.addModelMatrix b order output
  = Done tt (b, matAdd output (ModelBuilder.designMatrix b order)).
Proof.
  intros Hcap Hrep Hsize Hcols.
  destruct (order_bounds_of_size order output ltac:(lia) Hrep Hsize)
    as [Ho Hfuel].
  unfold ModelBuilder.addModelMatrix, ModelBuilder.matrixShapeOk.
  rewrite (withinCapacity_true b order Hcap).
  rewrite (proj2 (Z.eqb_eq _ _) Hsize).
  rewrite (forallb_of_Forall _ _ output
             (fun col E => proj2 (Nat.eqb_eq _ _) E) Hcols).
  cbn [andb]. rewrite packedLoop_run by exact Ho.
  pose proof (packedFuel_representable order Ho) as Hfr.
  unfold matAdd, ModelBuilder.designMatrix. rewrite <- Hfuel in *.
  rewrite (zip_with_table vadd [] output (ModelBuilder.designColumn b)).
  do 2 f_equal.
  etransitivity;
    [ | exact (sweep_all
                 (fun old k => vadd old (ModelBuilder.designColumn b k))
                 [] output) ].
  apply fold_left_ext_in. intros M k Hin. apply in_seq in Hin.
  rewrite position_index by lia.
  rewrite Array_set_nat, Array_get_nat. reflexivity.
Qed.

(** Entry of the elementwise sum of two matrices of one shape. *)
Lemma matAdd_entry (M N : Matrix) (rows : nat) (p j : nat) :
  length M = length N ->
  Forall (fun col => length col = rows) M ->
  Forall (fun col => length col = rows) N ->
  (j < length M)%nat -> (p < rows)%nat ->
  matEntry (matAdd M N) p j = (matEntry M p j + matEntry N p j)%R.
Proof.
  intros Hlen HM HN Hj Hp. unfold matEntry, matAdd.
  rewrite lookup_zip_with.
  destruct (lookup_lt_is_Some_2 M j Hj) as [u Eu].
  destruct (lookup_lt_is_Some_2 N j ltac:(lia)) as [v Ev].
  rewrite Eu, Ev. cbn. unfold vadd. rewrite lookup_zip_with.
  pose proof (Forall_lookup_1 _ _ _ _ HM Eu) as Lu.
  pose proof (Forall_lookup_1 _ _ _ _ HN Ev) as Lv.
  cbn in Lu, Lv.
  destruct (lookup_lt_is_Some_2 u p ltac:(lia)) as [a Ea].
  destruct (lookup_lt_is_Some_2 v p ltac:(lia)) as [a' Ea'].
  rewrite Ea, Ea'. reflexivity.
Qed.

Lemma designMatrix_shape (b : ModelBuilder.t) (order : Z) :
  length (ModelBuilder.designMatrix b order) = packedFuel order /\
  Forall (fun col => length col = ModelBuilder.pixels b)
    (ModelBuilder.designMatrix b order).
Proof.
  unfold ModelBuilder.designMatrix. split.
  - rewrite length_fmap, length_seq. reflexivity.
  - apply Forall_fmap, Forall_forall. intros k _. cbn.
    apply designColumn_length.
Qed.

(** * Claims about ModelBuilder *)

(** C5.  For a builder in a fixed state, an order within its capacity and a
    caller-supplied output matrix of shape pixels x packedSize(order),
    [addModelMatrix(order, output)] returns with the builder unchanged and the
    output holding, entry by entry, its previous contents plus the first
    packedSize(order) columns of the current design matrix: it accumulates,
    it does not overwrite.  (Array sizes are [int]s; arithmetic is exact.) *)
Theorem addModelMatrix_accumulates (b : ModelBuilder.t) (order : Z)
    (output : Matrix) :
  0 <= order <= ModelBuilder._wsOrder b ->
  Array.representable output ->
  Array.getSize output = packedSize order ->
  Forall (fun col => length col = ModelBuilder.pixels b) output ->
  exists output',
    ModelBuilder.addModelMatrix b order output = Done tt (b, output') /\
    output' = matAdd output (ModelBuilder.designMatrix b order) /\
    length output' = length output /\
    forall p j, (p < ModelBuilder.pixels b)%nat -> (j < length output)%nat ->
      matEntry output' p j
      = (matEntry output p j
         + matEntry (ModelBuilder.designMatrix b order) p j)%R.
Proof.
  intros Hcap Hrep Hsize Hcols.
  exists (matAdd output (ModelBuilder.designMatrix b order)).
  destruct (order_bounds_of_size order output ltac:(lia) Hrep Hsize)
    as [Ho Hfuel].
  destruct (designMatrix_shape b order) as [Dlen Dcols].
  split; [ apply addModelMatrix_run; assumption | ].
  split; [ reflexivity | ]. split.
  - unfold matAdd. apply length_zip_with_l_eq. lia.
  - intros p j Hp Hj.
    apply (matAdd_entry _ _ (ModelBuilder.pixels b)); try assumption. lia.
Qed.

Lemma addModelMatrix_accumulates_witness :
  exists output',
    ModelBuilder.addModelMatrix sampleBuilder 1
      [[10%R; 20%R]; [30%R; 40%R]; [50%R; 60%R]] = Done tt (sampleBuilder, output') /\
    output' = matAdd [[10%R; 20%R]; [30%R; 40%R]; [50%R; 60%R]]
                (ModelBuilder.designMatrix sampleBuilder 1) /\
    length output' = length [[10%R; 20%R]; [30%R; 40%R]; [50%R; 60%R]] /\
    forall p j, (p < ModelBuilder.pixels sampleBuilder)%nat ->
      (j < length [[10%R; 20%R]; [30%R; 40%R]; [50%R; 60%R]])%nat ->
      matEntry output' p j
      = (matEntry [[10%R; 20%R]; [30%R; 40%R]; [50%R; 60%R]] p j
         + matEntry (ModelBuilder.designMatrix sampleBuilder 1) p j)%R.
Proof.
  apply (addModelMatrix_accumulates sampleBuilder 1
           [[10%R; 20%R]; [30%R; 40%R]; [50%R; 60%R]]).
  - simpl. lia.
  - unfold Array.representable, Array.getSize, Int.max_signed. simpl. lia.
  - reflexivity.
  - repeat constructor.
Defined.

(** * Further properties of PackedIndex *)

Lemma advanceBy_zero (p : PackedIndex.t) : PackedIndex.advanceBy 0 p = p.
Proof. reflexivity. Qed.

(** Advancing a then b times is advancing a + b times. *)
Lemma advanceBy_add (a b : Z) (p : PackedIndex.t) :
  0 <= a -> 0 <= b ->
  PackedIndex.advanceBy (a + b) p
  = PackedIndex.advanceBy b (PackedIndex.advanceBy a p).
Proof.
  intros Ha Hb. pattern b. apply natlike_ind; [ | | exact Hb ].
  - rewrite Z.add_0_r. symmetry. apply advanceBy_zero.
  - clear b Hb. intros b Hb IH. rewrite <- Z.add_1_r.
    rewrite Z.add_assoc, advanceBy_succ by lia.
    rewrite advanceBy_succ by exact Hb. rewrite IH. reflexivity.
Qed.

Lemma position_add (k j : Z) :
  0 <= k -> 0 <= j ->
  PackedIndex.advanceBy j (PackedIndex.position k) = PackedIndex.position (k + j).
Proof.
  intros Hk Hj. unfold PackedIndex.position. symmetry.
  apply advanceBy_add; assumption.
Qed.

(** The (x, y) constructor, on the range where its offset fits an [int]. *)
Lemma new_xy_small (x y : Z) :
  0 <= x -> 0 <= y -> x + y <= PackedIndex.max_offset_order ->
  PackedIndex.new_xy x y = PackedIndex.mk (x + y) (tri (x + y) + x) x y.
Proof.
  intros Hx Hy Hle. unfold PackedIndex.new_xy.
  rewrite (pair_order_small x y Hx Hy Hle). cbv zeta.
  rewrite (computeOffset_small (x + y)) by lia.
  rewrite (offset_plus_x_small x y Hx Hy Hle). reflexivity.
Qed.

Lemma index_small_bound (x y : Z) :
  0 <= x -> 0 <= y -> x + y <= PackedIndex.max_offset_order ->
  0 <= tri (x + y) + x <= 1073767310.
Proof.
  unfold PackedIndex.max_offset_order. intros Hx Hy Hle.
  pose proof (tri_mono (x + y) 46340 ltac:(lia) ltac:(lia)) as Hm.
  pose proof (tri_nonneg (x + y) ltac:(lia)).
  assert (E : tri 46340 = 1073720970) by (vm_compute; reflexivity).
  lia.
Qed.

Lemma new_xy_position (x y : Z) :
  0 <= x -> 0 <= y -> x + y <= PackedIndex.max_offset_order ->
  PackedIndex.new_xy x y = PackedIndex.position (tri (x + y) + x).
Proof.
  intros Hx Hy Hle. rewrite (new_xy_small x y Hx Hy Hle).
  pose proof (index_small_bound x y Hx Hy Hle) as Hb.
  symmetry. apply position_of_pair; try assumption.
  unfold Int.max_signed. lia.
Qed.

(** X1.  [computeIndex] is injective on pairs of non-negative orders up to
    46340: two such pairs with the same flat index are the same pair. *)
Theorem computeIndex_injective (x y x' y' : Z) :
  0 <= x -> 0 <= y -> x + y <= PackedIndex.max_offset_order ->
  0 <= x' -> 0 <= y' -> x' + y' <= PackedIndex.max_offset_order ->
  PackedIndex.computeIndex x y = PackedIndex.computeIndex x' y' ->
  x = x' /\ y = y'.
Proof.
  intros Hx Hy Hle Hx' Hy' Hle' E.
  rewrite (computeIndex_small x y Hx Hy Hle) in E.
  rewrite (computeIndex_small x' y' Hx' Hy' Hle') in E.
  destruct (tri_decompose_unique (x + y) x (x' + y') x') as [En Ex]; lia.
Qed.

Lemma computeIndex_injective_witness : 1 = 1 /\ 2 = 2.
Proof.
  apply (computeIndex_injective 1 2 1 2);
    unfold PackedIndex.max_offset_order; lia.
Defined.

(** X2.  For a basis of order N (with N + 1 <= 46340), the flat index of
    every pair of order at most N lies in 0 .. computeOffset(N+1) - 1: it is a
    valid position in a vector of the packed size. *)
Theorem computeIndex_in_packed_range (N x y : Z) :
  0 <= x -> 0 <= y -> x + y <= N -> N + 1 <= PackedIndex.max_offset_order ->
  0 <= PackedIndex.computeIndex x y < PackedIndex.computeOffset (N + 1).
Proof.
  intros Hx Hy Hxy HN.
  rewrite (computeIndex_small x y) by lia.
  rewrite (computeOffset_small (N + 1)) by lia.
  pose proof (tri_nonneg (x + y) ltac:(lia)).
  pose proof (tri_gap (x + y) (N + 1) ltac:(lia) ltac:(lia)). lia.
Qed.

Lemma computeIndex_in_packed_range_witness :
  0 <= PackedIndex.computeIndex 1 1 < PackedIndex.computeOffset (2 + 1).
Proof.
  apply (computeIndex_in_packed_range 2 1 1);
    unfold PackedIndex.max_offset_order; lia.
Defined.

(** X3.  Conversely every position 0 <= k < computeOffset(N+1) of a packed
    vector of order N is the flat index of a pair of non-negative orders with
    x + y <= N: no slot of the vector is left unused. *)
Theorem computeIndex_onto_packed_range (N k : Z) :
  0 <= N -> N + 1 <= PackedIndex.max_offset_order ->
  0 <= k < PackedIndex.computeOffset (N + 1) ->
  exists x y, 0 <= x /\ 0 <= y /\ x + y <= N /\
    PackedIndex.computeIndex x y = k.
Proof.
  intros HN HN1 Hk. rewrite (computeOffset_small (N + 1)) in Hk by lia.
  rewrite <- packedSize_tri in Hk.
  assert (HN' : 0 <= N <= PackedIndex.max_packed_order)
    by (unfold PackedIndex.max_packed_order, PackedIndex.max_offset_order in *;
        lia).
  destruct (position_order_bound N k HN' Hk) as (Hx & Hy & Hxy).
  pose proof (packedSize_small N HN') as Hs.
  pose proof (position_pair_unique k _ _ ltac:(lia) eq_refl eq_refl) as Ek.
  exists (PackedIndex.getX (PackedIndex.position k)),
         (PackedIndex.getY (PackedIndex.position k)).
  repeat split; try assumption.
  rewrite computeIndex_small by lia. symmetry. exact Ek.
Qed.

Lemma computeIndex_onto_packed_range_witness :
  exists x y, 0 <= x /\ 0 <= y /\ x + y <= 2 /\
    PackedIndex.computeIndex x y = 4.
Proof.
  apply (computeIndex_onto_packed_range 2 4).
  - lia.
  - unfold PackedIndex.max_offset_order. lia.
  - vm_compute. split; [ discriminate | reflexivity ].
Defined.

(** X4.  The (x, y) constructor and the traversal agree: for non-negative
    x, y with x + y <= 46340, [PackedIndex(x, y)] is the state reached from
    the default-constructed index after [computeIndex(x, y)] advances. *)
Theorem constructor_is_position (x y : Z) :
  0 <= x -> 0 <= y -> x + y <= PackedIndex.max_offset_order ->
  PackedIndex.new_xy x y
  = PackedIndex.advanceBy (PackedIndex.computeIndex x y) PackedIndex.new.
Proof.
  intros Hx Hy Hle. rewrite (computeIndex_small x y Hx Hy Hle).
  apply new_xy_position; assumption.
Qed.

Lemma constructor_is_position_witness :
  PackedIndex.new_xy 1 2
  = PackedIndex.advanceBy (PackedIndex.computeIndex 1 2) PackedIndex.new.
Proof.
  apply (constructor_is_position 1 2);
    unfold PackedIndex.max_offset_order; lia.
Defined.

(** X5.  Reading the pair of a traversal state and constructing an index from
    it gives the state back: for every number of advances k below the packed
    size of order 46340, [PackedIndex(i.getX(), i.getY())] equals the state i
    reached after k advances, all four fields included. *)
Theorem position_reconstructed (k : Z) :
  0 <= k < packedSize PackedIndex.max_offset_order ->
  PackedIndex.new_xy (PackedIndex.getX (PackedIndex.position k))
                     (PackedIndex.getY (PackedIndex.position k))
  = PackedIndex.position k.
Proof.
  intros Hk.
  assert (HN : 0 <= PackedIndex.max_offset_order <= PackedIndex.max_packed_order)
    by (unfold PackedIndex.max_packed_order, PackedIndex.max_offset_order; lia).
  destruct (position_order_bound _ k HN Hk) as (Hx & Hy & Hxy).
  pose proof (packedSize_small _ HN) as Hs.
  pose proof (position_pair_unique k _ _ ltac:(lia) eq_refl eq_refl) as Ek.
  rewrite new_xy_position by assumption. rewrite <- Ek. reflexivity.
Qed.

Lemma position_reconstructed_witness :
  PackedIndex.new_xy (PackedIndex.getX (PackedIndex.position 7))
                     (PackedIndex.getY (PackedIndex.position 7))
  = PackedIndex.position 7.
Proof.
  apply (position_reconstructed 7). vm_compute.
  split; [ discriminate | reflexivity ].
Defined.

(** X6.  The states of one order are consecutive in the traversal: after k
    advances from the origin (k up to 2^31 - 1) the order is n exactly when
    n(n+1)/2 <= k < (n+1)(n+2)/2. *)
Theorem order_block (k n : Z) :
  0 <= k <= Int.max_signed -> 0 <= n ->
  PackedIndex.getOrder (PackedIndex.position k) = n
  <-> tri n <= k < tri (n + 1).
Proof.
  intros Hk Hn. destruct (position_inv k Hk) as [Inv Ei].
  destruct (PackedIndex.position k) as [m i x y].
  unfold PackedIndex.packed_inv, PackedIndex.getOrder in *.
  cbn [PackedIndex._n PackedIndex._i PackedIndex._x PackedIndex._y] in *.
  destruct Inv as (Hx & Hy & Hm & Hi). split.
  - intros <-. rewrite tri_succ. lia.
  - intros [Hlo Hhi].
    destruct (Z.lt_trichotomy m n) as [L | [E | G]]; [ exfalso | exact E | exfalso ].
    + pose proof (tri_gap m n ltac:(lia) L). lia.
    + pose proof (tri_mono (n + 1) m ltac:(lia) ltac:(lia)).
      pose proof (tri_nonneg m ltac:(lia)). lia.
Qed.

Lemma order_block_witness :
  PackedIndex.getOrder (PackedIndex.position 4) = 2 <-> tri 2 <= 4 < tri (2 + 1).
Proof.
  apply (order_block 4 2); unfold Int.max_signed; lia.
Defined.

(** X7.  Advancing a constructed index stays in step with the constructor:
    for non-negative x, y with x + y <= 46340 and 0 <= j <= y, j advances
    from [PackedIndex(x, y)] give [PackedIndex(x + j, y - j)]; and if
    x + y + 1 <= 46340, y + 1 advances give [PackedIndex(0, x + y + 1)], the
    first pair of the next order. *)
Theorem advance_constructed (x y j : Z) :
  0 <= x -> 0 <= j <= y -> x + y <= PackedIndex.max_offset_order ->
  PackedIndex.advanceBy j (PackedIndex.new_xy x y)
    = PackedIndex.new_xy (x + j) (y - j) /\
  (x + y + 1 <= PackedIndex.max_offset_order ->
   PackedIndex.advanceBy (y + 1) (PackedIndex.new_xy x y)
     = PackedIndex.new_xy 0 (x + y + 1)).
Proof.
  intros Hx Hj Hle.
  pose proof (index_small_bound x y Hx ltac:(lia) Hle) as Hb.
  rewrite (new_xy_position x y) by (assumption || lia). split.
  - rewrite position_add by lia.
    rewrite (new_xy_position (x + j) (y - j)) by lia.
    f_equal. replace (x + j + (y - j)) with (x + y) by lia. lia.
  - intros Hnext. rewrite position_add by lia.
    rewrite (new_xy_position 0 (x + y + 1)) by lia.
    f_equal. rewrite Z.add_0_l, tri_succ. lia.
Qed.

Lemma advance_constructed_witness :
  PackedIndex.advanceBy 2 (PackedIndex.new_xy 1 3)
    = PackedIndex.new_xy (1 + 2) (3 - 2) /\
  (1 + 3 + 1 <= PackedIndex.max_offset_order ->
   PackedIndex.advanceBy (3 + 1) (PackedIndex.new_xy 1 3)
     = PackedIndex.new_xy 0 (1 + 3 + 1)).
Proof.
  apply (advance_constructed 1 3 2);
    unfold PackedIndex.max_offset_order; lia.
Defined.

(** X8.  The order part of the state is kept by [operator++] whatever the
    flat index holds: from any state with non-negative x and y, order
    x + y and order below 2^31 - 1, the next state again has non-negative x
    and y and order x + y, and its order is the old order or one more. *)
Theorem operator_inc_keeps_order_sum (p : PackedIndex.t) :
  0 <= PackedIndex.getX p -> 0 <= PackedIndex.getY p ->
  PackedIndex.getOrder p = PackedIndex.getX p + PackedIndex.getY p ->
  PackedIndex.getOrder p < Int.max_signed ->
  0 <= PackedIndex.getX (PackedIndex.operator_inc p) /\
  0 <= PackedIndex.getY (PackedIndex.operator_inc p) /\
  PackedIndex.getOrder (PackedIndex.operator_inc p)
    = PackedIndex.getX (PackedIndex.operator_inc p)
      + PackedIndex.getY (PackedIndex.operator_inc p) /\
  PackedIndex.getOrder p <= PackedIndex.getOrder (PackedIndex.operator_inc p)
    <= PackedIndex.getOrder p + 1.
Proof.
  destruct p as [n i x y].
  unfold PackedIndex.getX, PackedIndex.getY, PackedIndex.getOrder.
  cbn [PackedIndex._n PackedIndex._x PackedIndex._y]. intros Hx Hy Hn Hmax.
  assert (R : forall z, -1 <= z <= Int.max_signed -> Int.in_range z)
    by int_range.
  unfold PackedIndex.operator_inc.
  cbn [PackedIndex._n PackedIndex._i PackedIndex._x PackedIndex._y].
  rewrite (Int_sub_small y 1) by (apply R; lia).
  destruct (Z.ltb_spec (y - 1) 0) as [Hneg | Hpos];
    cbn [PackedIndex._n PackedIndex._x PackedIndex._y].
  - rewrite (Int_add_small n 1) by (apply R; lia). lia.
  - rewrite (Int_add_small x 1) by (apply R; lia). lia.
Qed.

Lemma operator_inc_keeps_order_sum_witness :
  0 <= PackedIndex.getX (PackedIndex.operator_inc (PackedIndex.mk 3 (-5) 1 2)) /\
  0 <= PackedIndex.getY (PackedIndex.operator_inc (PackedIndex.mk 3 (-5) 1 2)) /\
  PackedIndex.getOrder (PackedIndex.operator_inc (PackedIndex.mk 3 (-5) 1 2))
    = PackedIndex.getX (PackedIndex.operator_inc (PackedIndex.mk 3 (-5) 1 2))
      + PackedIndex.getY (PackedIndex.operator_inc (PackedIndex.mk 3 (-5) 1 2)) /\
  PackedIndex.getOrder (PackedIndex.mk 3 (-5) 1 2)
    <= PackedIndex.getOrder (PackedIndex.operator_inc (PackedIndex.mk 3 (-5) 1 2))
    <= PackedIndex.getOrder (PackedIndex.mk 3 (-5) 1 2) + 1.
Proof.
  apply (operator_inc_keeps_order_sum (PackedIndex.mk 3 (-5) 1 2)).
  - simpl. lia.
  - simpl. lia.
  - reflexivity.
  - unfold Int.max_signed. simpl. lia.
Defined.

(** X9.  The flat index counts the advances for as long as an [int] can:
    after k advances from the default-constructed index, for every k up to
    2^31 - 1, [getIndex()] is k, x and y are non-negative, the order is
    x + y, and k = order(order+1)/2 + x.  (Only [computeIndex] is limited to
    orders up to 46340.) *)
Theorem index_counts_advances (k : Z) :
  0 <= k <= Int.max_signed ->
  PackedIndex.getIndex (PackedIndex.position k) = k /\
  0 <= PackedIndex.getX (PackedIndex.position k) /\
  0 <= PackedIndex.getY (PackedIndex.position k) /\
  PackedIndex.getOrder (PackedIndex.position k)
    = PackedIndex.getX (PackedIndex.position k)
      + PackedIndex.getY (PackedIndex.position k) /\
  k = PackedIndex.getOrder (PackedIndex.position k)
      * (PackedIndex.getOrder (PackedIndex.position k) + 1) / 2
      + PackedIndex.getX (PackedIndex.position k).
Proof.
  intros Hk. destruct (position_inv k Hk) as [(Hx & Hy & Hn & Hi) Ei].
  unfold PackedIndex.getIndex, PackedIndex.getX, PackedIndex.getY,
    PackedIndex.getOrder.
  repeat split; try assumption.
  unfold tri in Hi. rewrite <- Hi. symmetry. exact Ei.
Qed.

Lemma index_counts_advances_witness :
  PackedIndex.getIndex (PackedIndex.position 9) = 9 /\
  0 <= PackedIndex.getX (PackedIndex.position 9) /\
  0 <= PackedIndex.getY (PackedIndex.position 9) /\
  PackedIndex.getOrder (PackedIndex.position 9)
    = PackedIndex.getX (PackedIndex.position 9)
      + PackedIndex.getY (PackedIndex.position 9) /\
  9 = PackedIndex.getOrder (PackedIndex.position 9)
      * (PackedIndex.getOrder (PackedIndex.position 9) + 1) / 2
      + PackedIndex.getX (PackedIndex.position 9).
Proof.
  apply (index_counts_advances 9). unfold Int.max_signed. lia.
Defined.

(** X10.  First and last index of an order: for 0 <= n < 46340 the pair
    (0, n) has flat index [computeOffset(n)], the pair (n, 0) has flat index
    [computeOffset(n+1) - 1], and [computeOffset(n+1)] is
    [computeOffset(n)] + n + 1: order n holds exactly n + 1 indices. *)
Theorem order_first_last (n : Z) :
  0 <= n < PackedIndex.max_offset_order ->
  PackedIndex.computeIndex 0 n = PackedIndex.computeOffset n /\
  PackedIndex.computeIndex n 0 = PackedIndex.computeOffset (n + 1) - 1 /\
  PackedIndex.computeOffset (n + 1) = PackedIndex.computeOffset n + n + 1.
Proof.
  intros Hn.
  rewrite (computeIndex_small 0 n) by lia.
  rewrite (computeIndex_small n 0) by lia.
  rewrite (computeOffset_small n) by lia.
  rewrite (computeOffset_small (n + 1)) by lia.
  replace (0 + n) with n by lia. replace (n + 0) with n by lia.
  rewrite tri_succ. lia.
Qed.

Lemma order_first_last_witness :
  PackedIndex.computeIndex 0 3 = PackedIndex.computeOffset 3 /\
  PackedIndex.computeIndex 3 0 = PackedIndex.computeOffset (3 + 1) - 1 /\
  PackedIndex.computeOffset (3 + 1) = PackedIndex.computeOffset 3 + 3 + 1.
Proof.
  apply (order_first_last 3). unfold PackedIndex.max_offset_order. lia.
Defined.



(** * The documented loop, observed *)

Lemma fold_left_record (f : nat -> Z) (l : list nat) (seen : list Z) :
  fold_left (fun acc j => acc ++ [f j]) l seen = seen ++ (f <$> l).
Proof.
  revert seen. induction l as [ | j l IH ]; intros seen; cbn.
  - rewrite app_nil_r. reflexivity.
  - rewrite IH, <- app_assoc. reflexivity.
Qed.


Lemma seqZ_of_seq (n : nat) : seqZ 0 (Z.of_nat n) = Z.of_nat <$> seq 0 n.
Proof.
  unfold seqZ. rewrite Nat2Z.id. apply list_fmap_ext.
  intros i j _. lia.
Qed.

(** X12.  The loop of the header's usage note,
    [for (PackedIndex i; i.getOrder() <= order; ++i)], for an order from -1
    to 65534, stops after exactly (order+1)(order+2)/2 iterations, and the
    flat indices [i.getIndex()] seen by its body are 0, 1, 2, ... in this
    order, without gap or repetition. *)
Theorem documented_loop_indices (order : Z) :
  -1 <= order <= PackedIndex.max_packed_order ->
  packedLoop (packedFuel order) order recordIndex PackedIndex.new []
  = Some (seqZ 0 (packedSize order)).
Proof.
  intros Ho. rewrite packedLoop_run by exact Ho. f_equal.
  pose proof (packedFuel_representable order Ho) as Hrep.
  rewrite <- (packedFuel_size order) by lia. rewrite seqZ_of_seq.
  rewrite (fold_left_ext_in _ (fun acc j => acc ++ [Z.of_nat j])).
  - rewrite fold_left_record. reflexivity.
  - intros acc j Hin. apply in_seq in Hin. unfold recordIndex.
    rewrite position_index by lia. reflexivity.
Qed.

Lemma documented_loop_indices_witness :
  packedLoop (packedFuel 2) 2 recordIndex PackedIndex.new []
  = Some (seqZ 0 (packedSize 2)).
Proof.
  apply (documented_loop_indices 2).
  unfold PackedIndex.max_packed_order. lia.
Defined.



(** X14.  The traversal itself is sound beyond the range of [computeIndex]:
    for every order N up to 65534, the largest whose packed size fits an
    [int], each pair (x, y) of non-negative orders with x + y <= N is the
    state after exactly (x+y)(x+y+1)/2 + x advances from the origin, with
    that number as flat index and x + y as order, and after no other number
    of advances up to (N+1)(N+2)/2. *)
Theorem traversal_up_to_packed_order (N x y : Z) :
  0 <= N <= PackedIndex.max_packed_order ->
  0 <= x -> 0 <= y -> x + y <= N ->
  let k := (x + y) * (x + y + 1) / 2 + x in
  0 <= k < packedSize N /\
  PackedIndex.getX (PackedIndex.position k) = x /\
  PackedIndex.getY (PackedIndex.position k) = y /\
  PackedIndex.getOrder (PackedIndex.position k) = x + y /\
  PackedIndex.getIndex (PackedIndex.position k) = k /\
  (forall k', 0 <= k' <= packedSize N ->
     PackedIndex.getX (PackedIndex.position k') = x ->
     PackedIndex.getY (PackedIndex.position k') = y -> k' = k).
Proof.
  intros HN Hx Hy Hxy. fold (tri (x + y)). cbv zeta.
  destruct (enumeration_up_to_packed_order N x y HN Hx Hy Hxy)
    as (Hk & Epos & Huniq).
  rewrite Epos.
  unfold PackedIndex.getX, PackedIndex.getY, PackedIndex.getOrder,
    PackedIndex.getIndex.
  cbn [PackedIndex._n PackedIndex._i PackedIndex._x PackedIndex._y].
  repeat split; try reflexivity; try lia. exact Huniq.
Qed.

Lemma traversal_up_to_packed_order_witness :
  let k := (1 + 2) * (1 + 2 + 1) / 2 + 1 in
  0 <= k < packedSize 3 /\
  PackedIndex.getX (PackedIndex.position k) = 1 /\
  PackedIndex.getY (PackedIndex.position k) = 2 /\
  PackedIndex.getOrder (PackedIndex.position k) = 1 + 2 /\
  PackedIndex.getIndex (PackedIndex.position k) = k /\
  (forall k', 0 <= k' <= packedSize 3 ->
     PackedIndex.getX (PackedIndex.position k') = 1 ->
     PackedIndex.getY (PackedIndex.position k') = 2 -> k' = k).
Proof.
  apply (traversal_up_to_packed_order 3 1 2);
    unfold PackedIndex.max_packed_order; lia.
Defined.
